(** * videin: timeline indexing and sampling planner

    A shallow embedding of the planning core of [videin.py]:
    [build_timeline_index], [create_intervals], [map_videos_to_intervals],
    [find_file_at_timeline_position] and [create_sampling_plan].

    Modelling conventions.
    - Python [float] seconds are rationals ([Q]); arithmetic is exact, so
      rounding of IEEE doubles is outside the model.
    - Python [int] is [Z]; [int(x)] on a float truncates toward zero.
    - A [datetime] (second precision, totally ordered) is its ordinal in [Z].
    - [VideoFile] objects are mutable and held by reference: a [store] maps
      references to the current field values, and lists hold references.
    - [random.uniform] reads the next draw of [random.random()] from a
      stream; the position in the stream is threaded through the planner.
    - [print] appends a line to an output log. *)

From Stdlib Require Import String.
From Stdlib Require Import List ZArith QArith Qround Lqa Lia Bool.
From Stdlib Require Import Sorted Permutation.
Import ListNotations.
Open Scope Q_scope.

(** ** Data model *)

Definition ref := nat.

Record VideoFile : Type := mkVideoFile {
  path : string;
  filename : string;
  file_timestamp : Z;
  duration : Q;
  timeline_start : Q;
  timeline_end : Q
}.

Record Interval : Type := mkInterval {
  interval_id : Z;
  start_time : Q;
  end_time : Q;
  video_files : list ref
}.

(** [interval_id], [timeline_start] and [duration] of the source class carry
    the prefix [sample_] here: field names are global. *)
Record Sample : Type := mkSample {
  sample_interval_id : Z;
  sample_timeline_start : Q;
  source_file : ref;
  file_offset : Q;
  sample_duration : Q
}.

(** The object store: every reference denotes a [VideoFile]. *)
Definition store := ref -> VideoFile.

Definition store_set (h : store) (r : ref) (v : VideoFile) : store :=
  fun r' => if Nat.eqb r' r then v else h r'.

Definition set_timeline_start (v : VideoFile) (t : Q) : VideoFile :=
  mkVideoFile (path v) (filename v) (file_timestamp v) (duration v)
              t (timeline_end v).

Definition set_timeline_end (v : VideoFile) (t : Q) : VideoFile :=
  mkVideoFile (path v) (filename v) (file_timestamp v) (duration v)
              (timeline_start v) t.

(** Strict comparison on floats. *)
Definition Qlt_bool (a b : Q) : bool := negb (Qle_bool b a).

(** ** Timeline Builder *)

(** [sorted(video_files, key=lambda vf: vf.file_timestamp)]: a stable sort on
    the key, whose result does not depend on the sorting method.  It is
    computed here by insertion: the element being inserted stood before the
    ones already sorted, so it goes in front of the first key that is not
    smaller. *)
Fixpoint insert_by_timestamp (h : store) (r : ref) (l : list ref) : list ref :=
  match l with
  | [] => [r]
  | x :: l' =>
      if (file_timestamp (h r) <=? file_timestamp (h x))%Z
      then r :: x :: l'
      else x :: insert_by_timestamp h r l'
  end.

Fixpoint sorted (h : store) (l : list ref) : list ref :=
  match l with
  | [] => []
  | r :: l' => insert_by_timestamp h r (sorted h l')
  end.

(** The body of the [for vf in sorted_files] loop, with [current_time]
    threaded through. *)
Fixpoint assign_positions (h : store) (current_time : Q) (l : list ref)
  : store :=
  match l with
  | [] => h
  | r :: l' =>
      let h1 := store_set h r (set_timeline_start (h r) current_time) in
      let h2 := store_set h1 r
                  (set_timeline_end (h1 r) (current_time + duration (h1 r))) in
      assign_positions h2 (timeline_end (h2 r)) l'
  end.

Definition build_timeline_index (h : store) (video_files : list ref)
  : list ref * store :=
  let sorted_files := sorted h video_files in
  (sorted_files, assign_positions h 0 sorted_files).

(** ** Interval Partitioner *)

Inductive exn : Type := ZeroDivisionError.

Inductive result (A : Type) : Type :=
| Ok (a : A)
| Raise (e : exn).
Arguments Ok {A} a.
Arguments Raise {A} e.

Definition bind {A B} (m : result A) (k : A -> result B) : result B :=
  match m with
  | Ok a => k a
  | Raise e => Raise e
  end.

Notation "x <- m ;; k" := (bind m (fun x => k))
  (at level 61, m at next level, right associativity).

(** Float division: Python raises on a zero divisor. *)
Definition py_div (a b : Q) : result Q :=
  if Qeq_bool b 0 then Raise ZeroDivisionError else Ok (a / b).

(** [int(x)] for a float [x]: truncation toward zero. *)
Definition py_int (x : Q) : Z := Z.quot (Qnum x) (Zpos (Qden x)).

(** [range(n)]: empty when [n <= 0]. *)
Definition range (n : Z) : list Z := map Z.of_nat (seq 0 (Z.to_nat n)).

Definition create_intervals
  (total_video_duration interval_duration total_output_duration : Q)
  : result (list Interval) :=
  q <- py_div total_output_duration interval_duration ;;
  let num_intervals := py_int q in
  source_interval_duration <-
    py_div total_video_duration (inject_Z num_intervals) ;;
  Ok (map (fun i =>
             mkInterval i
               (inject_Z i * source_interval_duration)
               (inject_Z (i + 1) * source_interval_duration)
               [])
          (range num_intervals)).

(** ** Interval-to-File Mapper *)

Definition intersects (h : store) (interval : Interval) (vf : ref) : bool :=
  Qlt_bool (start_time interval) (timeline_end (h vf))
  && Qlt_bool (timeline_start (h vf)) (end_time interval).

Definition append_file (interval : Interval) (vf : ref) : Interval :=
  mkInterval (interval_id interval) (start_time interval) (end_time interval)
             (video_files interval ++ [vf]).

(** The inner [for vf in video_files] loop on one interval. *)
Definition map_videos_to_interval (h : store) (files : list ref)
  (interval : Interval) : Interval :=
  fold_left
    (fun itv vf => if intersects h itv vf then append_file itv vf else itv)
    files interval.

(** The intervals are updated in place; the updated list is returned here. *)
Definition map_videos_to_intervals (h : store) (files : list ref)
  (intervals : list Interval) : list Interval :=
  map (map_videos_to_interval h files) intervals.

(** ** Sampling Planner *)

Fixpoint find_file_at_timeline_position (h : store) (files : list ref)
  (position : Q) : option ref :=
  match files with
  | [] => None
  | vf :: rest =>
      if Qle_bool (timeline_start (h vf)) position
         && Qlt_bool position (timeline_end (h vf))
      then Some vf
      else find_file_at_timeline_position h rest position
  end.

(** Lines written by [print]. *)
Inductive output : Type :=
| WarnNoVideoFiles (interval_id : Z)
| WarnNoValidSample (interval_id : Z).

(** The random source: draw [n] of [random.random()]. *)
Definition rng := nat -> Q.

(** [random.uniform(a, b)] is [a + (b - a) * random()]. *)
Definition uniform (rnd : rng) (n : nat) (a b : Q) : Q :=
  a + (b - a) * rnd n.

Definition max_attempts : nat := 100.

Definition clamped_max_start (interval : Interval) (sample_dur : Q) : Q :=
  let max_start := end_time interval - sample_dur in
  if Qlt_bool max_start (start_time interval)
  then start_time interval
  else max_start.

(** The [for _ in range(max_attempts)] loop: [attempts] iterations remain and
    [n] draws have been consumed.  Returns the accepted sample, if any, and
    the number of draws consumed afterwards. *)
Fixpoint sample_attempts (h : store) (files : list ref) (sample_dur : Q)
  (rnd : rng) (interval : Interval) (attempts : nat) (n : nat)
  : option Sample * nat :=
  match attempts with
  | O => (None, n)
  | S attempts' =>
      let max_start := clamped_max_start interval sample_dur in
      let sample_start := uniform rnd n (start_time interval) max_start in
      let sample_end := sample_start + sample_dur in
      match find_file_at_timeline_position h files sample_start with
      | None =>
          sample_attempts h files sample_dur rnd interval attempts' (S n)
      | Some src =>
          if Qle_bool sample_end (timeline_end (h src))
          then (Some (mkSample (interval_id interval) sample_start src
                               (sample_start - timeline_start (h src))
                               sample_dur),
                S n)
          else sample_attempts h files sample_dur rnd interval attempts' (S n)
      end
  end.

(** State of the planner between two intervals. *)
Record plan_state : Type := mkPlanState {
  samples : list Sample;
  draws : nat;
  stdout : list output
}.

(** One iteration of the [for interval in intervals] loop. *)
Definition plan_interval (h : store) (files : list ref) (sample_dur : Q)
  (rnd : rng) (st : plan_state) (interval : Interval) : plan_state :=
  match video_files interval with
  | [] =>
      mkPlanState (samples st) (draws st)
                  (stdout st ++ [WarnNoVideoFiles (interval_id interval)])
  | _ :: _ =>
      match sample_attempts h files sample_dur rnd interval
                            max_attempts (draws st) with
      | (Some s, n) => mkPlanState (samples st ++ [s]) n (stdout st)
      | (None, n) =>
          mkPlanState (samples st) n
                      (stdout st ++ [WarnNoValidSample (interval_id interval)])
      end
  end.

Definition initial_plan_state : plan_state := mkPlanState [] O [].

Definition run_sampling_plan (h : store) (intervals : list Interval)
  (files : list ref) (sample_dur : Q) (rnd : rng) : plan_state :=
  fold_left (plan_interval h files sample_dur rnd) intervals
            initial_plan_state.

Definition create_sampling_plan (h : store) (intervals : list Interval)
  (files : list ref) (sample_dur : Q) (rnd : rng) : list Sample :=
  samples (run_sampling_plan h intervals files sample_dur rnd).

(** ** Predicates used in the statements *)

(** Ascending capture timestamps. *)
Definition timestamp_le (h : store) (a b : ref) : Prop :=
  (file_timestamp (h a) <= file_timestamp (h b))%Z.

(** The files stamped [k]; the sort is stable when it keeps their order. *)
Definition has_timestamp (h : store) (k : Z) (r : ref) : bool :=
  (file_timestamp (h r) =? k)%Z.

(** [sub] is [l] with some elements left out. *)
Inductive subsequence {A : Type} : list A -> list A -> Prop :=
| subsequence_nil : subsequence [] []
| subsequence_skip (x : A) (sub l : list A) :
    subsequence sub l -> subsequence sub (x :: l)
| subsequence_keep (x : A) (sub l : list A) :
    subsequence sub l -> subsequence (x :: sub) (x :: l).

(** [s] is what attempt number [k] of the random source yields for
    [interval] when it is accepted. *)
Definition accepted_at (h : store) (files : list ref) (sample_dur : Q)
  (rnd : rng) (interval : Interval) (k : nat) (s : Sample) : Prop :=
  let sample_start :=
    uniform rnd k (start_time interval)
            (clamped_max_start interval sample_dur) in
  find_file_at_timeline_position h files sample_start = Some (source_file s)
  /\ sample_start + sample_dur <= timeline_end (h (source_file s))
  /\ s = mkSample (interval_id interval) sample_start (source_file s)
                  (sample_start - timeline_start (h (source_file s)))
                  sample_dur.

(** ** Fixtures *)

Definition discovered (name : string) (timestamp : Z) (dur : Q) : VideoFile :=
  mkVideoFile name name timestamp dur 0 0.

(** Three ten-second files, discovered out of timestamp order. *)
Definition three_files : store :=
  fun r =>
    match r with
    | 0%nat => discovered "cam_240101-100010.ts" 20 10
    | 1%nat => discovered "cam_240101-100000.ts" 10 10
    | _ => discovered "cam_240101-100020.ts" 30 10
    end.

(** The timeline of the three files, cut into three ten-second intervals. *)
Definition timeline_files : list ref :=
  fst (build_timeline_index three_files [0; 1; 2]%nat).

Definition timeline_store : store :=
  snd (build_timeline_index three_files [0; 1; 2]%nat).

Definition three_intervals : list Interval :=
  [mkInterval 0 0 10 []; mkInterval 1 10 20 []; mkInterval 2 20 30 []].

(** A random source that always draws one half. *)
Definition always_half : rng := fun _ => 1 # 2.

(** The three intervals with their files mapped. *)
Definition mapped_intervals : list Interval :=
  map_videos_to_intervals timeline_store timeline_files three_intervals.

(** A file of duration 0 between two ten-second files. *)
Definition with_empty_file : store :=
  fun r =>
    match r with
    | 0%nat => discovered "cam_240101-100000.ts" 10 10
    | 1%nat => discovered "cam_240101-100010.ts" 20 0
    | _ => discovered "cam_240101-100011.ts" 30 10
    end.

(** The timeline of [with_empty_file] and the single interval covering it. *)
Definition empty_file_files : list ref :=
  fst (build_timeline_index with_empty_file [0; 1; 2]%nat).

Definition empty_file_store : store :=
  snd (build_timeline_index with_empty_file [0; 1; 2]%nat).

Definition whole_interval : list Interval := [mkInterval 0 0 20 []].

(** ** Further definitions: the timeline as a whole *)

(** [sum(vf.duration for vf in video_files)] in [main]. *)
Definition sum_durations (h : store) (files : list ref) : Q :=
  fold_left (fun acc vf => acc + duration (h vf)) files 0.

(** Value of [current_time] after the walk has passed the files [l],
    starting from [c]. *)
Definition cursor_after (h : store) (c : Q) (l : list ref) : Q :=
  fold_left (fun acc vf => acc + duration (h vf)) l c.

(** The files [l] lie end to end from [c]. *)
Fixpoint laid_out (h : store) (c : Q) (l : list ref) : Prop :=
  match l with
  | [] => True
  | vf :: l' =>
      timeline_start (h vf) = c
      /\ timeline_end (h vf) = c + duration (h vf)
      /\ laid_out h (c + duration (h vf)) l'
  end.

(** [position] lies in the span of [vf]. *)
Definition span_contains (h : store) (vf : ref) (position : Q) : Prop :=
  timeline_start (h vf) <= position /\ position < timeline_end (h vf).

(** ** Further definitions: the planning stages of [main] *)

(** The line written for an interval that yields no sample. *)
Definition skip_report (interval : Interval) : output :=
  match video_files interval with
  | [] => WarnNoVideoFiles (interval_id interval)
  | _ :: _ => WarnNoValidSample (interval_id interval)
  end.

(** How the part of [main] between discovery and extraction ends: with
    [return 1], with an exception that nothing catches, or with a plan.  The
    flag of a plan tells whether the warning about
    [len(samples) != len(intervals)] is written. *)
Inductive main_outcome : Type :=
| Exit (code : Z)
| Uncaught (e : exn)
| Planned (files : list ref) (h : store) (intervals : list Interval)
          (st : plan_state) (fewer_samples : bool).

(** [main] from the test on the discovered files to the warning after
    stage 3; [video_files] is what [discover_video_files] returned and
    [interval_duration], [total_duration] are the two durations of the
    command line.  The [display_...] calls only write tables and are left
    out. *)
Definition main_plan (h : store) (video_files : list ref)
  (interval_duration total_duration : Q) (rnd : rng) : main_outcome :=
  match video_files with
  | [] => Exit 1
  | _ :: _ =>
      let total := sum_durations h video_files in
      let (files, h') := build_timeline_index h video_files in
      match create_intervals total interval_duration total_duration with
      | Raise e => Uncaught e
      | Ok intervals =>
          let intervals := map_videos_to_intervals h' files intervals in
          let st := run_sampling_plan h' intervals files interval_duration
                                      rnd in
          Planned files h' intervals st
                  (negb (length (samples st) =? length intervals)%nat)
      end
  end.

(** ** Further definitions: attempts of the planner *)

(** Draw number [k] does not give a sample for [interval]: no file holds the
    drawn start, or the window would run past the end of the file found. *)
Definition draw_rejected (h : store) (files : list ref) (sample_dur : Q)
  (rnd : rng) (interval : Interval) (k : nat) : Prop :=
  let sample_start :=
    uniform rnd k (start_time interval)
            (clamped_max_start interval sample_dur) in
  match find_file_at_timeline_position h files sample_start with
  | None => True
  | Some src => timeline_end (h src) < sample_start + sample_dur
  end.


(** * Properties *)

(** ** Store updates *)

Lemma store_set_same (h : store) (r : ref) (v : VideoFile) :
  store_set h r v r = v.
Proof. unfold store_set. now rewrite Nat.eqb_refl. Qed.

Lemma store_set_other (h : store) (r r' : ref) (v : VideoFile) :
  r' <> r -> store_set h r v r' = h r'.
Proof.
  intros Hne. unfold store_set.
  destruct (Nat.eqb_spec r' r); [contradiction | reflexivity].
Qed.

(** ** Timeline Builder: the sort *)

Lemma insert_by_timestamp_perm (h : store) (r : ref) (l : list ref) :
  Permutation (r :: l) (insert_by_timestamp h r l).
Proof.
  induction l as [|x l IH]; simpl.
  - apply Permutation_refl.
  - destruct (file_timestamp (h r) <=? file_timestamp (h x))%Z.
    + apply Permutation_refl.
    + eapply perm_trans; [apply perm_swap | now apply perm_skip].
Qed.

Lemma sorted_perm (h : store) (l : list ref) : Permutation l (sorted h l).
Proof.
  induction l as [|r l IH]; simpl.
  - constructor.
  - eapply perm_trans; [apply perm_skip, IH | apply insert_by_timestamp_perm].
Qed.

Lemma insert_by_timestamp_sorted (h : store) (r : ref) (l : list ref) :
  StronglySorted (timestamp_le h) l ->
  StronglySorted (timestamp_le h) (insert_by_timestamp h r l).
Proof.
  induction 1 as [|x l Hs IH Hall]; simpl.
  - constructor; constructor.
  - destruct (Z.leb_spec (file_timestamp (h r)) (file_timestamp (h x)))
      as [Hle | Hgt].
    + constructor; [now constructor |].
      constructor; [exact Hle |].
      eapply Forall_impl; [| exact Hall].
      intros y Hy. unfold timestamp_le in *. lia.
    + constructor; [exact IH |].
      eapply Permutation_Forall; [apply insert_by_timestamp_perm |].
      constructor; [unfold timestamp_le; lia | exact Hall].
Qed.

Lemma sorted_sorted (h : store) (l : list ref) :
  StronglySorted (timestamp_le h) (sorted h l).
Proof.
  induction l as [|r l IH]; simpl.
  - constructor.
  - now apply insert_by_timestamp_sorted.
Qed.

Lemma insert_by_timestamp_filter (h : store) (k : Z) (r : ref) (l : list ref) :
  filter (has_timestamp h k) (insert_by_timestamp h r l)
  = filter (has_timestamp h k) (r :: l).
Proof.
  induction l as [|x l IH]; [reflexivity |].
  cbn [insert_by_timestamp].
  destruct (Z.leb_spec (file_timestamp (h r)) (file_timestamp (h x)))
    as [Hle | Hgt]; [reflexivity |].
  cbn [filter] in *. rewrite IH.
  unfold has_timestamp.
  destruct (Z.eqb_spec (file_timestamp (h x)) k) as [Hx | Hx];
    destruct (Z.eqb_spec (file_timestamp (h r)) k) as [Hr | Hr];
    try reflexivity.
  lia.
Qed.

(** Stability: files with equal timestamps keep their original order. *)
Lemma sorted_stable (h : store) (k : Z) (l : list ref) :
  filter (has_timestamp h k) (sorted h l) = filter (has_timestamp h k) l.
Proof.
  induction l as [|r l IH]; [reflexivity |].
  cbn [sorted]. rewrite insert_by_timestamp_filter.
  cbn [filter]. now rewrite IH.
Qed.

(** ** Timeline Builder: the cursor walk *)

Lemma assign_positions_notin (l : list ref) :
  forall (h : store) (c : Q) (r : ref),
    ~ In r l -> assign_positions h c l r = h r.
Proof.
  induction l as [|x l IH]; intros h c r Hnin; [reflexivity |].
  cbn [assign_positions].
  rewrite IH by (intros Hin; apply Hnin; now right).
  assert (Hne : r <> x) by (intros ->; apply Hnin; now left).
  now rewrite !store_set_other by exact Hne.
Qed.

Lemma assign_positions_cursor (l : list ref) (h : store) (c : Q) (r : ref) :
  assign_positions h c (r :: l)
  = assign_positions
      (store_set (store_set h r (set_timeline_start (h r) c)) r
                 (set_timeline_end (set_timeline_start (h r) c)
                                   (c + duration (h r))))
      (c + duration (h r)) l.
Proof.
  cbn [assign_positions]. now rewrite !store_set_same.
Qed.

Lemma assign_positions_keeps (l : list ref) :
  forall (h : store) (c : Q) (r : ref),
    file_timestamp (assign_positions h c l r) = file_timestamp (h r)
    /\ duration (assign_positions h c l r) = duration (h r)
    /\ path (assign_positions h c l r) = path (h r)
    /\ filename (assign_positions h c l r) = filename (h r).
Proof.
  induction l as [|x l IH]; intros h c r; [now repeat split |].
  rewrite assign_positions_cursor.
  destruct (IH (store_set (store_set h x (set_timeline_start (h x) c)) x
                  (set_timeline_end (set_timeline_start (h x) c)
                                    (c + duration (h x))))
               (c + duration (h x)) r) as (E1 & E2 & E3 & E4).
  rewrite E1, E2, E3, E4.
  destruct (Nat.eq_dec r x) as [-> | Hne].
  - rewrite !store_set_same. now repeat split.
  - rewrite !store_set_other by exact Hne. now repeat split.
Qed.

Lemma assign_positions_head (l : list ref) (h : store) (c : Q) (r : ref) :
  ~ In r l ->
  timeline_start (assign_positions h c (r :: l) r) = c
  /\ timeline_end (assign_positions h c (r :: l) r) = c + duration (h r).
Proof.
  intros Hnin. cbn [assign_positions].
  rewrite assign_positions_notin by exact Hnin.
  rewrite !store_set_same. now split.
Qed.

(** On distinct objects the walk lays the files end to end from [c]. *)
Lemma assign_positions_spec (l : list ref) :
  forall (h : store) (c : Q),
    NoDup l ->
    (forall r, In r l ->
       timeline_end (assign_positions h c l r)
       = timeline_start (assign_positions h c l r)
         + duration (assign_positions h c l r))
    /\ (forall r, nth_error l 0 = Some r ->
          timeline_start (assign_positions h c l r) = c)
    /\ (forall i r1 r2,
          nth_error l i = Some r1 -> nth_error l (S i) = Some r2 ->
          timeline_end (assign_positions h c l r1)
          = timeline_start (assign_positions h c l r2)).
Proof.
  induction l as [|x l IH]; intros h c Hnd.
  - split; [intros r [] |].
    split; [intros r Hr; discriminate Hr |].
    intros i r1 r2 Hr. destruct i; discriminate Hr.
  - inversion Hnd as [|? ? Hnin Hnd']; subst.
    destruct (assign_positions_head l h c x Hnin) as [Hs He].
    destruct (assign_positions_keeps (x :: l) h c x) as (_ & Hd & _).
    specialize (IH
      (store_set (store_set h x (set_timeline_start (h x) c)) x
                 (set_timeline_end (set_timeline_start (h x) c)
                                   (c + duration (h x))))
      (c + duration (h x)) Hnd').
    rewrite <- assign_positions_cursor in IH.
    destruct IH as (IHinv & IHhd & IHadj).
    split; [| split].
    + intros r [-> | Hin].
      * now rewrite Hs, He, Hd.
      * now apply IHinv.
    + intros r Hr. cbn in Hr. injection Hr as <-. exact Hs.
    + intros i r1 r2 H1 H2. destruct i as [|i].
      * cbn in H1. injection H1 as <-. cbn [nth_error] in H2.
        rewrite He. symmetry. now apply IHhd.
      * cbn [nth_error] in H1, H2. now apply (IHadj i).
Qed.

(** ** Timeline Builder: the result *)

Example build_timeline_index_three_files :
  let (fs, h') := build_timeline_index three_files [0; 1; 2]%nat in
  fs = [1; 0; 2]%nat
  /\ map (fun r => (timeline_start (h' r), timeline_end (h' r))) fs
     = [(0, 0 + 10); (0 + 10, 0 + 10 + 10); (0 + 10 + 10, 0 + 10 + 10 + 10)].
Proof. split; reflexivity. Qed.

(** C3.  On a set of files (pairwise distinct objects) the Timeline Builder
    returns the same files sorted ascending by capture timestamp, files with
    equal timestamps in their original order; the first file starts at 0,
    every file ends at its start plus its duration, and each file ends where
    the next one starts.  Timestamps and durations are left untouched. *)
Theorem build_timeline_index_contiguous
  (h : store) (files sorted_files : list ref) (h' : store) :
  NoDup files ->
  build_timeline_index h files = (sorted_files, h') ->
  Permutation files sorted_files
  /\ StronglySorted (timestamp_le h') sorted_files
  /\ (forall k, filter (has_timestamp h' k) sorted_files
                = filter (has_timestamp h k) files)
  /\ (forall r, nth_error sorted_files 0 = Some r ->
                timeline_start (h' r) = 0)
  /\ (forall r, In r sorted_files ->
                timeline_end (h' r) = timeline_start (h' r) + duration (h' r))
  /\ (forall i r1 r2,
         nth_error sorted_files i = Some r1 ->
         nth_error sorted_files (S i) = Some r2 ->
         timeline_end (h' r1) = timeline_start (h' r2))
  /\ (forall r, file_timestamp (h' r) = file_timestamp (h r)
                /\ duration (h' r) = duration (h r)).
Proof.
  intros Hnd Hrun. unfold build_timeline_index in Hrun.
  injection Hrun as <- <-.
  assert (Hts : forall r,
             file_timestamp (assign_positions h 0 (sorted h files) r)
             = file_timestamp (h r))
    by (intros r; apply assign_positions_keeps).
  assert (Hnd' : NoDup (sorted h files))
    by (eapply Permutation_NoDup; [apply sorted_perm | exact Hnd]).
  destruct (assign_positions_spec (sorted h files) h 0 Hnd')
    as (Hinv & Hhd & Hadj).
  repeat split.
  - apply sorted_perm.
  - eapply StronglySorted_ind
      with (P := StronglySorted
                   (timestamp_le (assign_positions h 0 (sorted h files))));
      [constructor | | apply sorted_sorted].
    intros a l _ IH Hall. constructor; [exact IH |].
    eapply Forall_impl; [| exact Hall].
    intros b Hb. unfold timestamp_le in *. now rewrite !Hts.
  - intros k. rewrite <- (sorted_stable h k files).
    apply filter_ext. intros r. unfold has_timestamp. now rewrite Hts.
  - exact Hhd.
  - exact Hinv.
  - exact Hadj.
  - apply Hts.
  - apply assign_positions_keeps.
Qed.

Lemma build_timeline_index_contiguous_witness :
  NoDup [0; 1; 2]%nat
  /\ forall i r1 r2,
       nth_error (fst (build_timeline_index three_files [0; 1; 2]%nat)) i
       = Some r1 ->
       nth_error (fst (build_timeline_index three_files [0; 1; 2]%nat)) (S i)
       = Some r2 ->
       timeline_end (snd (build_timeline_index three_files [0; 1; 2]%nat) r1)
       = timeline_start
           (snd (build_timeline_index three_files [0; 1; 2]%nat) r2).
Proof.
  assert (Hnd : NoDup [0; 1; 2]%nat).
  { repeat constructor; simpl; intuition discriminate. }
  split; [exact Hnd |].
  exact (proj1 (proj2 (proj2 (proj2 (proj2 (proj2
           (build_timeline_index_contiguous three_files [0; 1; 2]%nat
              _ _ Hnd eq_refl))))))).
Defined.

(** The files have to be distinct objects: an object listed twice is
    positioned twice and keeps the second span only. *)
Remark build_timeline_index_shared_object :
  let (fs, h') := build_timeline_index three_files [0; 0]%nat in
  fs = [0; 0]%nat /\ timeline_start (h' 0%nat) = 0 + 10.
Proof. split; reflexivity. Qed.

(** ** Interval Partitioner *)


Lemma py_div_ok (a b : Q) : ~ b == 0 -> py_div a b = Ok (a / b).
Proof.
  intros Hb. unfold py_div.
  destruct (Qeq_bool b 0) eqn:E; [| reflexivity].
  apply Qeq_bool_iff in E. contradiction.
Qed.

Lemma py_div_zero (a b : Q) : b == 0 -> py_div a b = Raise ZeroDivisionError.
Proof.
  intros Hb. unfold py_div. apply Qeq_bool_iff in Hb. now rewrite Hb.
Qed.

Lemma inject_Z_zero_iff (z : Z) : inject_Z z == 0 <-> z = 0%Z.
Proof.
  unfold Qeq, inject_Z. simpl. lia.
Qed.




(** When neither division fails the partitioner returns one interval per
    index of [range]. *)
Lemma create_intervals_ok (total iv out : Q) :
  ~ iv == 0 -> py_int (out / iv) <> 0%Z ->
  create_intervals total iv out
  = Ok (map (fun i =>
               mkInterval i
                 (inject_Z i * (total / inject_Z (py_int (out / iv))))
                 (inject_Z (i + 1) * (total / inject_Z (py_int (out / iv))))
                 [])
            (range (py_int (out / iv)))).
Proof.
  intros Hiv Hn. unfold create_intervals.
  rewrite (py_div_ok out iv Hiv). cbn [bind].
  rewrite py_div_ok by (rewrite inject_Z_zero_iff; exact Hn).
  reflexivity.
Qed.

Example create_intervals_scenario :
  create_intervals 30 5 15
  = Ok [mkInterval 0 (0 * (30 / 3)) (1 * (30 / 3)) [];
        mkInterval 1 (1 * (30 / 3)) (2 * (30 / 3)) [];
        mkInterval 2 (2 * (30 / 3)) (3 * (30 / 3)) []].
Proof. reflexivity. Qed.





Example create_intervals_short_output :
  create_intervals 30 5 3 = Raise ZeroDivisionError.
Proof. reflexivity. Qed.



(** ** Interval-to-File Mapper *)

Lemma Qlt_bool_iff (a b : Q) : Qlt_bool a b = true <-> a < b.
Proof.
  unfold Qlt_bool. rewrite negb_true_iff.
  split.
  - intros H. apply Qnot_le_lt. intros Hle.
    apply Qle_bool_iff in Hle. congruence.
  - intros H. destruct (Qle_bool b a) eqn:E; [| reflexivity].
    apply Qle_bool_iff in E. apply Qle_not_lt in E. contradiction.
Qed.

Lemma intersects_iff (h : store) (itv : Interval) (vf : ref) :
  intersects h itv vf = true
  <-> start_time itv < timeline_end (h vf)
      /\ timeline_start (h vf) < end_time itv.
Proof.
  unfold intersects. now rewrite andb_true_iff, !Qlt_bool_iff.
Qed.

(** The inner loop appends, in the order of [files], the files that pass the
    test and leaves the rest of the interval alone. *)
Lemma map_videos_to_interval_eq (h : store) (files : list ref) :
  forall itv,
    map_videos_to_interval h files itv
    = mkInterval (interval_id itv) (start_time itv) (end_time itv)
        (video_files itv ++ filter (intersects h itv) files).
Proof.
  unfold map_videos_to_interval.
  induction files as [|vf files IH]; intros itv; cbn [fold_left filter].
  - destruct itv. cbn. now rewrite app_nil_r.
  - destruct (intersects h itv vf) eqn:E.
    + rewrite IH. cbn [append_file interval_id start_time end_time video_files].
      rewrite <- app_assoc. reflexivity.
    + apply IH.
Qed.

Example map_videos_to_intervals_scenario :
  map video_files
      (map_videos_to_intervals timeline_store timeline_files three_intervals)
  = [[1]; [0]; [2]]%nat.
Proof. reflexivity. Qed.

(** C6.  After mapping, interval [i] keeps its id and bounds and its file list
    is the old list followed by the given files that pass the overlap test,
    in the order given: a file is appended if and only if it was given and
    [timeline_end > start_time] and [timeline_start < end_time].  For an
    interval whose list was empty, a given file is in the list afterwards if
    and only if the half-open spans overlap. *)
Theorem map_videos_to_intervals_overlap
  (h : store) (files : list ref) (intervals : list Interval)
  (i : nat) (itv : Interval) :
  nth_error intervals i = Some itv ->
  exists itv',
    nth_error (map_videos_to_intervals h files intervals) i = Some itv'
    /\ interval_id itv' = interval_id itv
    /\ start_time itv' = start_time itv
    /\ end_time itv' = end_time itv
    /\ (exists appended,
          video_files itv' = video_files itv ++ appended
          /\ forall vf,
               In vf appended
               <-> In vf files
                   /\ start_time itv < timeline_end (h vf)
                   /\ timeline_start (h vf) < end_time itv)
    /\ (video_files itv = [] ->
        forall vf, In vf files ->
          (In vf (video_files itv')
           <-> start_time itv < timeline_end (h vf)
               /\ timeline_start (h vf) < end_time itv)).
Proof.
  intros Hi. exists (map_videos_to_interval h files itv).
  split.
  { unfold map_videos_to_intervals. now rewrite nth_error_map, Hi. }
  rewrite map_videos_to_interval_eq.
  cbn [interval_id start_time end_time video_files].
  split; [reflexivity |]. split; [reflexivity |]. split; [reflexivity |].
  split.
  - exists (filter (intersects h itv) files). split; [reflexivity |].
    intros vf. now rewrite filter_In, intersects_iff.
  - intros Hempty vf Hvf. rewrite Hempty. cbn [app].
    rewrite filter_In, intersects_iff. tauto.
Qed.

Lemma map_videos_to_intervals_overlap_witness :
  nth_error three_intervals 1 = Some (mkInterval 1 10 20 [])
  /\ exists itv',
       nth_error
         (map_videos_to_intervals timeline_store timeline_files
            three_intervals) 1
       = Some itv'
       /\ interval_id itv' = 1%Z.
Proof.
  split; [reflexivity |].
  destruct (map_videos_to_intervals_overlap timeline_store timeline_files
              three_intervals 1 (mkInterval 1 10 20 []) eq_refl)
    as (itv' & Hnth & Hid & _).
  exists itv'. now split.
Defined.

(** A second run on the intervals already processed appends the matches
    again. *)
Lemma map_videos_to_intervals_twice
  (h : store) (files : list ref) (intervals : list Interval) :
  map_videos_to_intervals h files (map_videos_to_intervals h files intervals)
  = map (fun itv =>
           mkInterval (interval_id itv) (start_time itv) (end_time itv)
             (video_files itv ++ filter (intersects h itv) files
                              ++ filter (intersects h itv) files))
        intervals.
Proof.
  unfold map_videos_to_intervals. rewrite map_map.
  apply map_ext. intros itv.
  rewrite !map_videos_to_interval_eq.
  cbn [interval_id start_time end_time video_files].
  now rewrite <- app_assoc.
Qed.

(** C7, as stated, fails: the mapper appends to the lists it is given, so a
    second run on the intervals of the first run lists the files twice. *)
Lemma map_videos_to_intervals_not_idempotent :
  ~ (forall (h : store) (files : list ref) (intervals : list Interval),
       map_videos_to_intervals h files
         (map_videos_to_intervals h files intervals)
       = map_videos_to_intervals h files intervals).
Proof.
  intros H.
  specialize (H timeline_store timeline_files three_intervals).
  apply (f_equal (map video_files)) in H.
  vm_compute in H. discriminate H.
Qed.

(** C7, amended.  The assignments are a function of the interval bounds, the
    initial lists and the timeline positions of the files alone, so a run on
    equal inputs gives equal assignments.  A second run on the intervals
    already processed gives, for each interval, the list of the first run
    followed by the intersecting files once more; it changes nothing exactly
    when no file intersects any interval. *)
Theorem map_videos_to_intervals_rerun
  (h : store) (files : list ref) (intervals : list Interval) :
  (forall h2 : store,
     (forall vf, In vf files ->
        timeline_start (h2 vf) == timeline_start (h vf)
        /\ timeline_end (h2 vf) == timeline_end (h vf)) ->
     map_videos_to_intervals h2 files intervals
     = map_videos_to_intervals h files intervals)
  /\ (forall i itv,
        nth_error (map_videos_to_intervals h files intervals) i = Some itv ->
        exists itv2,
          nth_error
            (map_videos_to_intervals h files
               (map_videos_to_intervals h files intervals)) i = Some itv2
          /\ video_files itv2
             = video_files itv ++ filter (intersects h itv) files)
  /\ (map_videos_to_intervals h files
        (map_videos_to_intervals h files intervals)
      = map_videos_to_intervals h files intervals
      <-> forall itv, In itv intervals ->
            filter (intersects h itv) files = []).
Proof.
  split; [| split].
  - intros h2 Hagree. unfold map_videos_to_intervals.
    apply map_ext. intros itv. rewrite !map_videos_to_interval_eq.
    f_equal. f_equal. apply filter_ext_in. intros vf Hvf.
    destruct (Hagree vf Hvf) as [Hs He].
    unfold intersects, Qlt_bool, Qle_bool, Qeq, Qle in *.
    f_equal; f_equal; apply eq_true_iff_eq; rewrite !Z.leb_le; nia.
  - intros i itv Hi.
    exists (map_videos_to_interval h files itv). split.
    + unfold map_videos_to_intervals at 1. now rewrite nth_error_map, Hi.
    + now rewrite map_videos_to_interval_eq.
  - rewrite map_videos_to_intervals_twice.
    unfold map_videos_to_intervals. split.
    + intros Heq itv Hin.
      assert (Hone : mkInterval (interval_id itv) (start_time itv)
                       (end_time itv)
                       (video_files itv ++ filter (intersects h itv) files
                          ++ filter (intersects h itv) files)
                     = map_videos_to_interval h files itv)
        by (revert itv Hin; apply ext_in_map; exact Heq).
      rewrite map_videos_to_interval_eq in Hone.
      injection Hone as Hone. rewrite app_assoc in Hone.
      apply (f_equal (@length ref)) in Hone.
      rewrite !length_app in Hone.
      apply length_zero_iff_nil. lia.
    + intros Hnone. apply map_ext_in. intros itv Hin.
      rewrite map_videos_to_interval_eq, (Hnone itv Hin). reflexivity.
Qed.

(** ** Sampling Planner: one attempt *)

Lemma find_file_at_timeline_position_some
  (h : store) (files : list ref) (position : Q) (vf : ref) :
  find_file_at_timeline_position h files position = Some vf ->
  In vf files
  /\ timeline_start (h vf) <= position
  /\ position < timeline_end (h vf).
Proof.
  induction files as [|x files IH]; cbn [find_file_at_timeline_position].
  - discriminate.
  - destruct (Qle_bool (timeline_start (h x)) position
              && Qlt_bool position (timeline_end (h x))) eqn:E.
    + intros [= <-]. apply andb_true_iff in E as [E1 E2].
      apply Qle_bool_iff in E1. apply Qlt_bool_iff in E2.
      repeat split; [now left | assumption | assumption].
    + intros H. destruct (IH H) as (Hin & Hlo & Hhi).
      repeat split; [now right | assumption | assumption].
Qed.



(** ** Sampling Planner: the attempt loop *)

Lemma sample_attempts_spec
  (h : store) (files : list ref) (d : Q) (rnd : rng) (itv : Interval) :
  forall (attempts n : nat),
    match sample_attempts h files d rnd itv attempts n with
    | (Some s, n') =>
        exists k, (n <= k < n + attempts)%nat /\ n' = S k
                  /\ accepted_at h files d rnd itv k s
    | (None, n') => n' = (n + attempts)%nat
    end.
Proof.
  induction attempts as [|attempts IH]; intros n; cbn [sample_attempts].
  - lia.
  - assert (Hrec : match sample_attempts h files d rnd itv attempts (S n) with
                   | (Some s, n') =>
                       exists k, (n <= k < n + S attempts)%nat /\ n' = S k
                                 /\ accepted_at h files d rnd itv k s
                   | (None, n') => n' = (n + S attempts)%nat
                   end).
    { specialize (IH (S n)).
      destruct (sample_attempts h files d rnd itv attempts (S n))
        as [[s|] n'].
      - destruct IH as (k & Hk & Hn' & Hacc).
        exists k. split; [lia | split; [exact Hn' | exact Hacc]].
      - lia. }
    destruct (find_file_at_timeline_position h files
                (uniform rnd n (start_time itv) (clamped_max_start itv d)))
      as [src|] eqn:Efind; [| exact Hrec].
    destruct (Qle_bool
                (uniform rnd n (start_time itv) (clamped_max_start itv d) + d)
                (timeline_end (h src))) eqn:Eend; [| exact Hrec].
    exists n. split; [lia | split; [reflexivity |]].
    unfold accepted_at. cbn [source_file].
    split; [exact Efind | split; [now apply Qle_bool_iff | reflexivity]].
Qed.

Lemma sample_attempts_draws
  (h : store) (files : list ref) (d : Q) (rnd : rng) (itv : Interval)
  (attempts n : nat) :
  (n <= snd (sample_attempts h files d rnd itv attempts n) <= n + attempts)%nat.
Proof.
  pose proof (sample_attempts_spec h files d rnd itv attempts n) as H.
  destruct (sample_attempts h files d rnd itv attempts n) as [[s|] n'];
    cbn [snd].
  - destruct H as (k & Hk & -> & _). lia.
  - lia.
Qed.

(** ** Sampling Planner: one interval *)

Lemma plan_interval_cases
  (h : store) (files : list ref) (d : Q) (rnd : rng)
  (st : plan_state) (itv : Interval) :
  (video_files itv = []
   /\ plan_interval h files d rnd st itv
      = mkPlanState (samples st) (draws st)
          (stdout st ++ [WarnNoVideoFiles (interval_id itv)]))
  \/ (video_files itv <> []
      /\ exists s k,
           (draws st <= k < draws st + max_attempts)%nat
           /\ accepted_at h files d rnd itv k s
           /\ plan_interval h files d rnd st itv
              = mkPlanState (samples st ++ [s]) (S k) (stdout st))
  \/ (video_files itv <> []
      /\ plan_interval h files d rnd st itv
         = mkPlanState (samples st) (draws st + max_attempts)
             (stdout st ++ [WarnNoValidSample (interval_id itv)])).
Proof.
  unfold plan_interval.
  destruct (video_files itv) as [|vf vfs] eqn:Evf; [left; now split |].
  right.
  pose proof (sample_attempts_spec h files d rnd itv max_attempts (draws st))
    as Hspec.
  destruct (sample_attempts h files d rnd itv max_attempts (draws st))
    as [[s|] n'].
  - left. split; [discriminate |].
    destruct Hspec as (k & Hk & -> & Hacc).
    exists s, k. split; [exact Hk | split; [exact Hacc | reflexivity]].
  - right. split; [discriminate |]. now subst n'.
Qed.

(** ** Subsequences *)

Lemma subsequence_length {A : Type} (sub l : list A) :
  subsequence sub l -> (length sub <= length l)%nat.
Proof. induction 1; simpl; lia. Qed.

Lemma subsequence_In {A : Type} (sub l : list A) (x : A) :
  subsequence sub l -> In x sub -> In x l.
Proof.
  induction 1 as [| y sub l _ IH | y sub l _ IH]; simpl; intuition.
Qed.

Lemma subsequence_sorted (sub l : list Z) :
  subsequence sub l -> StronglySorted Z.lt l -> StronglySorted Z.lt sub.
Proof.
  induction 1 as [| y sub l Hsub IH | y sub l Hsub IH]; intros Hs.
  - constructor.
  - apply IH. now inversion Hs.
  - inversion Hs as [| ? ? Hs' Hall]; subst.
    constructor; [now apply IH |].
    rewrite Forall_forall in *. intros x Hx.
    apply Hall. now apply (subsequence_In sub l).
Qed.

(** ** Sampling Planner: the whole run *)

Lemma run_from_state
  (h : store) (files : list ref) (d : Q) (rnd : rng)
  (intervals : list Interval) :
  forall st : plan_state,
    exists new,
      samples (fold_left (plan_interval h files d rnd) intervals st)
      = samples st ++ new
      /\ subsequence (map sample_interval_id new)
                     (map interval_id intervals)
      /\ (forall s, In s new ->
            exists itv k,
              In itv intervals /\ video_files itv <> []
              /\ accepted_at h files d rnd itv k s)
      /\ (draws st
          <= draws (fold_left (plan_interval h files d rnd) intervals st)
          <= draws st + max_attempts * length intervals)%nat.
Proof.
  induction intervals as [|itv intervals IH]; intros st; cbn [fold_left].
  - exists []. rewrite app_nil_r. cbn [map length].
    split; [reflexivity |]. split; [constructor |].
    split; [intros s [] | lia].
  - destruct (IH (plan_interval h files d rnd st itv))
      as (new & Hnew & Hsub & Hacc & Hdraws).
    destruct (plan_interval_cases h files d rnd st itv)
      as [[Hvf Hst] | [(Hvf & s & k & Hk & Hs & Hst) | [Hvf Hst]]];
      rewrite Hst in Hnew, Hdraws |- *; cbn [samples draws] in Hnew, Hdraws.
    + exists new. cbn [map length].
      split; [exact Hnew |]. split; [now constructor |]. split; [| lia].
      intros s Hs. destruct (Hacc s Hs) as (itv' & k & Hin & H').
      exists itv', k. split; [now right | exact H'].
    + exists (s :: new). cbn [map length].
      split; [now rewrite Hnew, <- app_assoc |].
      split.
      { destruct Hs as (_ & _ & ->). cbn [sample_interval_id].
        now constructor. }
      split; [| lia].
      intros s' [<- | Hs'].
      * exists itv, k. split; [now left | now split].
      * destruct (Hacc s' Hs') as (itv' & k' & Hin & H').
        exists itv', k'. split; [now right | exact H'].
    + exists new. cbn [map length].
      split; [exact Hnew |]. split; [now constructor |]. split; [| lia].
      intros s Hs. destruct (Hacc s Hs) as (itv' & k & Hin & H').
      exists itv', k. split; [now right | exact H'].
Qed.

(** Every sample of a plan was accepted at some attempt of some interval with
    a non-empty file list. *)
Lemma create_sampling_plan_accepted
  (h : store) (intervals : list Interval) (files : list ref) (d : Q)
  (rnd : rng) (s : Sample) :
  In s (create_sampling_plan h intervals files d rnd) ->
  exists itv k,
    In itv intervals /\ video_files itv <> []
    /\ accepted_at h files d rnd itv k s.
Proof.
  unfold create_sampling_plan, run_sampling_plan.
  destruct (run_from_state h files d rnd intervals initial_plan_state)
    as (new & -> & _ & Hacc & _).
  cbn [samples initial_plan_state app]. apply Hacc.
Qed.

Lemma accepted_at_fields
  (h : store) (files : list ref) (d : Q) (rnd : rng) (itv : Interval)
  (k : nat) (s : Sample) :
  accepted_at h files d rnd itv k s ->
  sample_interval_id s = interval_id itv
  /\ sample_timeline_start s
     = uniform rnd k (start_time itv) (clamped_max_start itv d)
  /\ file_offset s
     = sample_timeline_start s - timeline_start (h (source_file s))
  /\ sample_duration s = d
  /\ find_file_at_timeline_position h files (sample_timeline_start s)
     = Some (source_file s)
  /\ In (source_file s) files
  /\ timeline_start (h (source_file s)) <= sample_timeline_start s
  /\ sample_timeline_start s < timeline_end (h (source_file s))
  /\ sample_timeline_start s + sample_duration s
     <= timeline_end (h (source_file s)).
Proof.
  intros (Hfind & Hend & Hs).
  pose proof (f_equal sample_interval_id Hs) as Eid.
  pose proof (f_equal sample_timeline_start Hs) as Ets.
  pose proof (f_equal file_offset Hs) as Eoff.
  pose proof (f_equal sample_duration Hs) as Edur.
  cbn [sample_interval_id sample_timeline_start file_offset sample_duration]
    in Eid, Ets, Eoff, Edur.
  rewrite <- Ets in Hfind, Hend, Eoff. rewrite <- Edur in Hend at 1.
  destruct (find_file_at_timeline_position_some _ _ _ _ Hfind)
    as (Hin & Hlo & Hhi).
  repeat split; assumption.
Qed.

Example create_sampling_plan_scenario :
  map (fun s => (sample_interval_id s, source_file s))
      (create_sampling_plan timeline_store mapped_intervals timeline_files
         5 always_half)
  = [(0%Z, 1%nat); (1%Z, 0%nat); (2%Z, 2%nat)].
Proof. vm_compute. reflexivity. Qed.





Example create_sampling_plan_short_files :
  create_sampling_plan timeline_store mapped_intervals timeline_files
    20 always_half = []
  /\ stdout (run_sampling_plan timeline_store mapped_intervals timeline_files
               20 always_half)
     = [WarnNoValidSample 0; WarnNoValidSample 1; WarnNoValidSample 2]
  /\ draws (run_sampling_plan timeline_store mapped_intervals timeline_files
              20 always_half) = 300%nat.
Proof. vm_compute. repeat split. Qed.

(** C8.  The interval ids of the samples form a subsequence of the interval
    ids of the intervals given: at most one sample per interval, in the order
    of the intervals, each carrying the id of an interval that had files.
    When the interval ids increase, so do those of the samples.  There are
    never more samples than intervals, and there can be fewer. *)
Theorem create_sampling_plan_order
  (h : store) (intervals : list Interval) (files : list ref) (d : Q)
  (rnd : rng) :
  subsequence
    (map sample_interval_id (create_sampling_plan h intervals files d rnd))
    (map interval_id intervals)
  /\ (length (create_sampling_plan h intervals files d rnd)
      <= length intervals)%nat
  /\ (StronglySorted Z.lt (map interval_id intervals) ->
      StronglySorted Z.lt
        (map sample_interval_id
             (create_sampling_plan h intervals files d rnd)))
  /\ (forall s, In s (create_sampling_plan h intervals files d rnd) ->
        exists itv,
          In itv intervals /\ video_files itv <> []
          /\ interval_id itv = sample_interval_id s)
  /\ (length (create_sampling_plan timeline_store mapped_intervals
                timeline_files 20 always_half)
      < length mapped_intervals)%nat.
Proof.
  assert (Hsub : subsequence
                   (map sample_interval_id
                        (create_sampling_plan h intervals files d rnd))
                   (map interval_id intervals)).
  { unfold create_sampling_plan, run_sampling_plan.
    destruct (run_from_state h files d rnd intervals initial_plan_state)
      as (new & -> & Hsub & _).
    exact Hsub. }
  split; [exact Hsub |].
  split.
  { apply subsequence_length in Hsub. now rewrite !length_map in Hsub. }
  split; [now apply subsequence_sorted |].
  split.
  - intros s Hs.
    destruct (create_sampling_plan_accepted _ _ _ _ _ _ Hs)
      as (itv & k & Hin & Hvf & Hacc).
    exists itv. split; [exact Hin |]. split; [exact Hvf |].
    symmetry. now apply (accepted_at_fields _ _ _ _ _ _ _ Hacc).
  - vm_compute. lia.
Qed.

Lemma run_accounts
  (h : store) (files : list ref) (d : Q) (rnd : rng)
  (intervals : list Interval) :
  forall st : plan_state,
    (length (samples (fold_left (plan_interval h files d rnd) intervals st))
     + length (stdout (fold_left (plan_interval h files d rnd) intervals st))
     = length (samples st) + length (stdout st) + length intervals)%nat.
Proof.
  induction intervals as [|itv intervals IH]; intros st; cbn [fold_left].
  - cbn [length]. lia.
  - rewrite IH.
    destruct (plan_interval_cases h files d rnd st itv)
      as [[_ Hst] | [(_ & s & k & _ & _ & Hst) | [_ Hst]]];
      rewrite Hst; cbn [samples stdout length];
      rewrite ?length_app; cbn [length]; lia.
Qed.

(** C9.  In a run over [before ++ itv :: after], planning [itv] consumes at
    most 100 draws.  When [itv] has no files, the state is left as it was
    except for one warning line, and no draw is consumed.  Otherwise either
    one sample with the id of [itv] is appended, or all 100 attempts are
    spent and one warning line is written.  In every case the run goes on
    with the intervals after [itv] from the resulting state and returns a
    plan; each interval of the run yields either a sample or a warning
    line. *)
Theorem create_sampling_plan_bounded_retry
  (h : store) (files : list ref) (d : Q) (rnd : rng)
  (before after : list Interval) (itv : Interval) :
  let st := fold_left (plan_interval h files d rnd) before
                      initial_plan_state in
  let st' := plan_interval h files d rnd st itv in
  let final := run_sampling_plan h (before ++ itv :: after) files d rnd in
  final = fold_left (plan_interval h files d rnd) after st'
  /\ create_sampling_plan h (before ++ itv :: after) files d rnd
     = samples final
  /\ (draws st <= draws st' <= draws st + 100)%nat
  /\ (video_files itv = [] ->
      st' = mkPlanState (samples st) (draws st)
              (stdout st ++ [WarnNoVideoFiles (interval_id itv)]))
  /\ (video_files itv <> [] ->
      (exists s, samples st' = samples st ++ [s]
                 /\ sample_interval_id s = interval_id itv
                 /\ stdout st' = stdout st)
      \/ (samples st' = samples st
          /\ draws st' = (draws st + 100)%nat
          /\ stdout st'
             = stdout st ++ [WarnNoValidSample (interval_id itv)]))
  /\ (length (samples final) + length (stdout final)
      = length (before ++ itv :: after))%nat.
Proof.
  intros st st' final.
  split.
  { unfold final, run_sampling_plan. now rewrite fold_left_app. }
  split; [reflexivity |].
  assert (Hcases := plan_interval_cases h files d rnd st itv).
  fold st' in Hcases. change max_attempts with 100%nat in Hcases.
  split; [| split; [| split]].
  - destruct Hcases as [[_ ->] | [(_ & s & k & Hk & _ & ->) | [_ ->]]];
      cbn [draws]; lia.
  - intros Hvf.
    destruct Hcases as [[_ Hst] | [(Hne & _) | [Hne _]]];
      [exact Hst | contradiction | contradiction].
  - intros Hvf.
    destruct Hcases as [[He _] | [(_ & s & k & _ & Hacc & ->) | [_ ->]]].
    + contradiction.
    + left. exists s. cbn [samples stdout].
      split; [reflexivity |]. split; [| reflexivity].
      now apply (accepted_at_fields _ _ _ _ _ _ _ Hacc).
    + right. cbn [samples draws stdout]. now repeat split.
  - unfold final, run_sampling_plan. rewrite run_accounts. reflexivity.
Qed.

Example empty_file_timeline :
  map (fun r => (timeline_start (empty_file_store r),
                 timeline_end (empty_file_store r)))
      empty_file_files
  = [(0, 0 + 10); (0 + 10, 0 + 10 + 0); (0 + 10 + 0, 0 + 10 + 0 + 10)]
  /\ map video_files
         (map_videos_to_intervals empty_file_store empty_file_files
            whole_interval)
     = [[0; 1; 2]%nat].
Proof. split; reflexivity. Qed.

(** C10.  A file of duration 0, whose span is empty, can be in the mapped file
    list of an interval: file 1 of [with_empty_file] is.  The lookup returns
    no file with an empty span, whatever the position, and no sample of any
    plan has such a file as its source. *)
Theorem empty_span_never_sampled :
  (exists itv,
     nth_error (map_videos_to_intervals empty_file_store empty_file_files
                  whole_interval) 0 = Some itv
     /\ In 1%nat (video_files itv)
     /\ duration (empty_file_store 1%nat) == 0
     /\ timeline_start (empty_file_store 1%nat)
        == timeline_end (empty_file_store 1%nat))
  /\ (forall (h : store) (files : list ref) (position : Q) (vf : ref),
        timeline_start (h vf) == timeline_end (h vf) ->
        find_file_at_timeline_position h files position <> Some vf)
  /\ (forall (h : store) (intervals : list Interval) (files : list ref)
             (d : Q) (rnd : rng) (s : Sample),
        In s (create_sampling_plan h intervals files d rnd) ->
        ~ timeline_start (h (source_file s))
          == timeline_end (h (source_file s))).
Proof.
  split; [| split].
  - eexists. split; [reflexivity |]. cbn [video_files].
    split; [right; now left |]. split; reflexivity.
  - intros h files position vf Hempty Hfind.
    apply find_file_at_timeline_position_some in Hfind as (_ & Hlo & Hhi).
    lra.
  - intros h intervals files d rnd s Hs Hempty.
    destruct (create_sampling_plan_accepted _ _ _ _ _ _ Hs)
      as (itv & k & _ & _ & Hacc).
    destruct (accepted_at_fields _ _ _ _ _ _ _ Hacc)
      as (_ & _ & _ & _ & _ & _ & Hlo & Hhi & _).
    lra.
Qed.

(** * Further properties *)

(** ** Timeline Builder: the timeline as a whole *)

Lemma cursor_after_ext (h1 h2 : store) (l : list ref) :
  forall c,
    (forall vf, In vf l -> duration (h1 vf) = duration (h2 vf)) ->
    cursor_after h1 c l = cursor_after h2 c l.
Proof.
  unfold cursor_after.
  induction l as [|x l IH]; intros c Hd; [reflexivity |].
  cbn [fold_left]. rewrite (Hd x) by now left.
  apply IH. intros vf Hvf. apply Hd. now right.
Qed.

Lemma cursor_after_shift (h : store) (l : list ref) :
  forall c, cursor_after h c l == c + cursor_after h 0 l.
Proof.
  unfold cursor_after.
  induction l as [|x l IH]; intros c; cbn [fold_left]; [ring |].
  rewrite (IH (c + duration (h x))), (IH (0 + duration (h x))). ring.
Qed.

Lemma cursor_after_perm (h : store) (l l' : list ref) :
  Permutation l l' -> forall c, cursor_after h c l == cursor_after h c l'.
Proof.
  induction 1 as [| x l l' _ IH | x y l | l l' l'' _ IH1 _ IH2]; intros c.
  - reflexivity.
  - unfold cursor_after in *. cbn [fold_left]. apply IH.
  - unfold cursor_after. cbn [fold_left].
    fold (cursor_after h (c + duration (h y) + duration (h x)) l).
    fold (cursor_after h (c + duration (h x) + duration (h y)) l).
    rewrite (cursor_after_shift h l (c + duration (h y) + duration (h x))).
    rewrite (cursor_after_shift h l (c + duration (h x) + duration (h y))).
    ring.
  - now rewrite IH1.
Qed.

Lemma cursor_after_le (h : store) (l : list ref) :
  forall c,
    (forall vf, In vf l -> 0 <= duration (h vf)) ->
    c <= cursor_after h c l.
Proof.
  unfold cursor_after.
  induction l as [|x l IH]; intros c Hd; cbn [fold_left]; [lra |].
  assert (Hx : 0 <= duration (h x)) by (apply Hd; now left).
  assert (Hl : c + duration (h x)
               <= fold_left (fun acc vf => acc + duration (h vf)) l
                    (c + duration (h x)))
    by (apply IH; intros vf Hvf; apply Hd; now right).
  lra.
Qed.

(** The fields of the object at a given place of the walk. *)
Lemma assign_positions_at (l1 : list ref) :
  forall (h : store) (c : Q) (r : ref) (l2 : list ref),
    NoDup (l1 ++ r :: l2) ->
    assign_positions h c (l1 ++ r :: l2) r
    = mkVideoFile (path (h r)) (filename (h r)) (file_timestamp (h r))
        (duration (h r)) (cursor_after h c l1)
        (cursor_after h c l1 + duration (h r)).
Proof.
  induction l1 as [|x l1 IH]; intros h c r l2 Hnd.
  - cbn [app] in *. inversion Hnd as [|? ? Hnin _]; subst.
    rewrite assign_positions_cursor, assign_positions_notin by exact Hnin.
    now rewrite store_set_same.
  - cbn [app] in *. inversion Hnd as [|? ? Hnin Hnd']; subst.
    assert (Hne : r <> x).
    { intros ->. apply Hnin. apply in_or_app. right. now left. }
    rewrite assign_positions_cursor, IH by exact Hnd'.
    rewrite !store_set_other by exact Hne.
    unfold cursor_after at 3 4. cbn [fold_left].
    fold (cursor_after h (c + duration (h x)) l1).
    rewrite (cursor_after_ext
               (store_set (store_set h x (set_timeline_start (h x) c)) x
                  (set_timeline_end (set_timeline_start (h x) c)
                     (c + duration (h x))))
               h l1); [reflexivity |].
    intros vf _. destruct (Nat.eq_dec vf x) as [-> | Hvf].
    + now rewrite store_set_same.
    + now rewrite !store_set_other by exact Hvf.
Qed.

Lemma assign_positions_laid_out (l : list ref) :
  forall (h : store) (c : Q),
    NoDup l -> laid_out (assign_positions h c l) c l.
Proof.
  induction l as [|x l IH]; intros h c Hnd; [exact I |].
  inversion Hnd as [|? ? Hnin Hnd']; subst.
  destruct (assign_positions_head l h c x Hnin) as [Hs He].
  destruct (assign_positions_keeps (x :: l) h c x) as (_ & Hd & _).
  cbn [laid_out]. rewrite Hd.
  split; [exact Hs |]. split; [exact He |].
  rewrite assign_positions_cursor. now apply IH.
Qed.

Lemma laid_out_bounds (h : store) (l : list ref) :
  forall c,
    laid_out h c l ->
    (forall vf, In vf l -> 0 <= duration (h vf)) ->
    forall vf, In vf l ->
      c <= timeline_start (h vf)
      /\ timeline_start (h vf) <= timeline_end (h vf)
      /\ timeline_end (h vf) <= cursor_after h c l.
Proof.
  induction l as [|x l IH]; intros c Hlo Hd vf Hvf; [contradiction |].
  destruct Hlo as (Hs & He & Hlo).
  assert (Hx : 0 <= duration (h x)) by (apply Hd; now left).
  assert (Hd' : forall vf, In vf l -> 0 <= duration (h vf))
    by (intros y Hy; apply Hd; now right).
  unfold cursor_after. cbn [fold_left].
  fold (cursor_after h (c + duration (h x)) l).
  pose proof (cursor_after_le h l (c + duration (h x)) Hd') as Hle.
  destruct Hvf as [<- | Hvf].
  - rewrite Hs, He. lra.
  - destruct (IH _ Hlo Hd' vf Hvf) as (H1 & H2 & H3). lra.
Qed.

Lemma laid_out_ordered (h : store) (l : list ref) :
  forall c i j r1 r2,
    laid_out h c l ->
    (forall vf, In vf l -> 0 <= duration (h vf)) ->
    (i < j)%nat ->
    nth_error l i = Some r1 -> nth_error l j = Some r2 ->
    timeline_end (h r1) <= timeline_start (h r2).
Proof.
  induction l as [|x l IH]; intros c i j r1 r2 Hlo Hd Hij H1 H2.
  - destruct i; discriminate H1.
  - destruct Hlo as (Hs & He & Hlo).
    assert (Hd' : forall vf, In vf l -> 0 <= duration (h vf))
      by (intros y Hy; apply Hd; now right).
    destruct j as [|j]; [lia |]. cbn [nth_error] in H2.
    destruct i as [|i].
    + cbn in H1. injection H1 as <-. rewrite He.
      apply (laid_out_bounds h l _ Hlo Hd' r2).
      eapply nth_error_In; exact H2.
    + cbn [nth_error] in H1.
      apply (IH (c + duration (h x)) i j); (assumption || lia).
Qed.


(** What one run of the builder establishes, in the terms used below. *)
Lemma build_timeline_index_laid_out
  (h : store) (files sorted_files : list ref) (h' : store) :
  NoDup files ->
  build_timeline_index h files = (sorted_files, h') ->
  Permutation files sorted_files
  /\ NoDup sorted_files
  /\ laid_out h' 0 sorted_files
  /\ (forall vf, duration (h' vf) = duration (h vf))
  /\ cursor_after h' 0 sorted_files == sum_durations h files.
Proof.
  intros Hnd Hrun. unfold build_timeline_index in Hrun.
  injection Hrun as <- <-.
  assert (Hperm := sorted_perm h files).
  assert (Hnd' : NoDup (sorted h files))
    by (eapply Permutation_NoDup; eassumption).
  assert (Hdur : forall vf,
             duration (assign_positions h 0 (sorted h files) vf)
             = duration (h vf))
    by (intros vf; apply assign_positions_keeps).
  split; [exact Hperm |]. split; [exact Hnd' |].
  split; [now apply assign_positions_laid_out |].
  split; [exact Hdur |].
  rewrite (cursor_after_ext _ h) by (intros vf _; apply Hdur).
  symmetry. apply (cursor_after_perm h _ _ Hperm).
Qed.



(** With non-negative durations the spans do not overlap: a file ends no
    later than any file after it in the timeline starts. *)
Theorem build_timeline_index_disjoint
  (h : store) (files sorted_files : list ref) (h' : store)
  (i j : nat) (before after : ref) :
  NoDup files ->
  (forall vf, In vf files -> 0 <= duration (h vf)) ->
  build_timeline_index h files = (sorted_files, h') ->
  (i < j)%nat ->
  nth_error sorted_files i = Some before ->
  nth_error sorted_files j = Some after ->
  timeline_end (h' before) <= timeline_start (h' after).
Proof.
  intros Hnd Hpos Hrun Hij Hi Hj.
  destruct (build_timeline_index_laid_out h files sorted_files h' Hnd Hrun)
    as (Hperm & _ & Hlo & Hdur & _).
  apply (laid_out_ordered h' sorted_files 0 i j); try assumption.
  intros x Hx. rewrite Hdur. apply Hpos.
  eapply Permutation_in; [apply Permutation_sym; exact Hperm | exact Hx].
Qed.

Lemma build_timeline_index_disjoint_witness :
  NoDup [0; 1; 2]%nat
  /\ (0 < 2)%nat
  /\ timeline_end (timeline_store 1%nat)
     <= timeline_start (timeline_store 2%nat).
Proof.
  assert (Hnd : NoDup [0; 1; 2]%nat).
  { repeat constructor; simpl; intuition discriminate. }
  assert (Hpos : forall vf, In vf [0; 1; 2]%nat ->
                   0 <= duration (three_files vf)).
  { intros vf [<- | [<- | [<- | []]]]; discriminate. }
  assert (Hlt : (0 < 2)%nat) by lia.
  split; [exact Hnd |]. split; [exact Hlt |].
  exact (build_timeline_index_disjoint three_files [0; 1; 2]%nat
           timeline_files timeline_store 0 2 1%nat 2%nat
           Hnd Hpos eq_refl Hlt eq_refl eq_refl).
Defined.

(** The builder writes [timeline_start] and [timeline_end] of the listed
    files and nothing else: the other fields of every object, and objects
    that are not in the list, are as before. *)
Theorem build_timeline_index_frame
  (h : store) (files : list ref) (vf : ref) :
  path (snd (build_timeline_index h files) vf) = path (h vf)
  /\ filename (snd (build_timeline_index h files) vf) = filename (h vf)
  /\ file_timestamp (snd (build_timeline_index h files) vf)
     = file_timestamp (h vf)
  /\ duration (snd (build_timeline_index h files) vf) = duration (h vf)
  /\ (~ In vf files -> snd (build_timeline_index h files) vf = h vf).
Proof.
  unfold build_timeline_index. cbn [snd].
  destruct (assign_positions_keeps (sorted h files) h 0 vf)
    as (E1 & E2 & E3 & E4).
  repeat split; try assumption.
  intros Hnin. apply assign_positions_notin.
  intros Hin. apply Hnin.
  eapply Permutation_in; [apply Permutation_sym, sorted_perm | exact Hin].
Qed.

Lemma sorted_of_sorted (h : store) (l : list ref) :
  StronglySorted (timestamp_le h) l -> sorted h l = l.
Proof.
  induction 1 as [|x l Hs IH Hall]; [reflexivity |].
  cbn [sorted]. rewrite IH.
  destruct l as [|y l]; [reflexivity |].
  cbn [insert_by_timestamp].
  inversion Hall as [|? ? Hxy _]; subst. unfold timestamp_le in Hxy.
  destruct (Z.leb_spec (file_timestamp (h x)) (file_timestamp (h y)));
    [reflexivity | lia].
Qed.

Lemma sorted_ext (h1 h2 : store) (l : list ref) :
  (forall vf, file_timestamp (h1 vf) = file_timestamp (h2 vf)) ->
  sorted h1 l = sorted h2 l.
Proof.
  intros Hts.
  assert (Hins : forall r l', insert_by_timestamp h1 r l'
                              = insert_by_timestamp h2 r l').
  { intros r l'. induction l' as [|y l' IH]; [reflexivity |].
    cbn [insert_by_timestamp]. now rewrite !Hts, IH. }
  induction l as [|x l IH]; [reflexivity |].
  cbn [sorted]. now rewrite IH, Hins.
Qed.

(** Building the timeline again from its own result changes nothing: the
    order is kept and every object keeps its position. *)
Theorem build_timeline_index_idempotent
  (h : store) (files sorted_files : list ref) (h' : store) :
  NoDup files ->
  build_timeline_index h files = (sorted_files, h') ->
  fst (build_timeline_index h' sorted_files) = sorted_files
  /\ forall vf, snd (build_timeline_index h' sorted_files) vf = h' vf.
Proof.
  intros Hnd Hrun. unfold build_timeline_index in *.
  injection Hrun as <- <-. cbn [fst snd].
  assert (Hkeep := fun vf => assign_positions_keeps (sorted h files) h 0 vf).
  assert (Hsame : sorted (assign_positions h 0 (sorted h files))
                         (sorted h files) = sorted h files).
  { rewrite (sorted_ext _ h) by (intros vf; apply Hkeep).
    apply sorted_of_sorted, sorted_sorted. }
  rewrite Hsame. split; [reflexivity |].
  assert (Hnd' : NoDup (sorted h files))
    by (eapply Permutation_NoDup; [apply sorted_perm | exact Hnd]).
  intros vf.
  destruct (in_dec Nat.eq_dec vf (sorted h files)) as [Hin | Hnin].
  - apply in_split in Hin as (l1 & l2 & Hsplit).
    rewrite Hsplit in Hnd' |- *.
    rewrite !assign_positions_at by exact Hnd'.
    rewrite <- Hsplit.
    cbn [path filename file_timestamp duration].
    rewrite (cursor_after_ext (assign_positions h 0 (sorted h files)) h l1)
      by (intros r _; apply Hkeep).
    reflexivity.
  - now rewrite assign_positions_notin by exact Hnin.
Qed.

Lemma build_timeline_index_idempotent_witness :
  NoDup [0; 1; 2]%nat
  /\ fst (build_timeline_index timeline_store timeline_files)
     = timeline_files.
Proof.
  assert (Hnd : NoDup [0; 1; 2]%nat).
  { repeat constructor; simpl; intuition discriminate. }
  split; [exact Hnd |].
  exact (proj1 (build_timeline_index_idempotent three_files [0; 1; 2]%nat
                  timeline_files timeline_store Hnd eq_refl)).
Defined.

(** ** Timeline position lookup *)

Lemma span_contains_iff (h : store) (vf : ref) (position : Q) :
  Qle_bool (timeline_start (h vf)) position
  && Qlt_bool position (timeline_end (h vf)) = true
  <-> span_contains h vf position.
Proof.
  unfold span_contains. now rewrite andb_true_iff, Qle_bool_iff, Qlt_bool_iff.
Qed.

Lemma find_file_at_timeline_position_none
  (h : store) (files : list ref) (position : Q) :
  find_file_at_timeline_position h files position = None
  <-> forall vf, In vf files -> ~ span_contains h vf position.
Proof.
  induction files as [|x files IH]; cbn [find_file_at_timeline_position].
  - split; [intros _ vf [] | reflexivity].
  - destruct (Qle_bool (timeline_start (h x)) position
              && Qlt_bool position (timeline_end (h x))) eqn:E.
    + apply span_contains_iff in E. split; [discriminate |].
      intros Hnone. exfalso. apply (Hnone x); [now left | exact E].
    + assert (Hx : ~ span_contains h x position).
      { intros Hc. apply span_contains_iff in Hc. congruence. }
      rewrite IH. split.
      * intros Hrest vf [<- | Hvf]; [exact Hx | now apply Hrest].
      * intros Hall vf Hvf. apply Hall. now right.
Qed.

(** The lookup returns the first file, in list order, whose span contains the
    position, and [None] exactly when no span does. *)
Theorem find_file_at_timeline_position_first
  (h : store) (files : list ref) (position : Q) :
  (forall vf,
     find_file_at_timeline_position h files position = Some vf
     <-> exists earlier later,
           files = earlier ++ vf :: later
           /\ span_contains h vf position
           /\ forall x, In x earlier -> ~ span_contains h x position)
  /\ (find_file_at_timeline_position h files position = None
      <-> forall vf, In vf files -> ~ span_contains h vf position).
Proof.
  split; [| apply find_file_at_timeline_position_none].
  induction files as [|x files IH]; intros vf;
    cbn [find_file_at_timeline_position].
  - split; [discriminate |].
    intros (earlier & later & Hsplit & _). destruct earlier; discriminate.
  - destruct (Qle_bool (timeline_start (h x)) position
              && Qlt_bool position (timeline_end (h x))) eqn:E.
    + apply span_contains_iff in E. split.
      * intros [= <-]. exists [], files.
        split; [reflexivity |]. split; [exact E | intros y []].
      * intros (earlier & later & Hsplit & Hc & Hnone).
        destruct earlier as [|y earlier]; cbn [app] in Hsplit.
        -- now injection Hsplit as <- _.
        -- injection Hsplit as <- _. exfalso.
           apply (Hnone x); [now left | exact E].
    + assert (Hx : ~ span_contains h x position).
      { intros Hc. apply span_contains_iff in Hc. congruence. }
      rewrite IH. split.
      * intros (earlier & later & -> & Hc & Hnone).
        exists (x :: earlier), later.
        split; [reflexivity |]. split; [exact Hc |].
        intros y [<- | Hy]; [exact Hx | now apply Hnone].
      * intros (earlier & later & Hsplit & Hc & Hnone).
        destruct earlier as [|y earlier]; cbn [app] in Hsplit.
        -- injection Hsplit as -> _. contradiction.
        -- injection Hsplit as <- ->. exists earlier, later.
           split; [reflexivity |]. split; [exact Hc |].
           intros z Hz. apply Hnone. now right.
Qed.

Lemma laid_out_find_some (h : store) (l : list ref) (position : Q) :
  forall c,
    laid_out h c l ->
    c <= position -> position < cursor_after h c l ->
    exists vf, find_file_at_timeline_position h l position = Some vf.
Proof.
  induction l as [|x l IH]; intros c Hlo Hc Hp.
  - unfold cursor_after in Hp. cbn in Hp. lra.
  - destruct Hlo as (Hs & He & Hlo).
    cbn [find_file_at_timeline_position].
    destruct (Qle_bool (timeline_start (h x)) position
              && Qlt_bool position (timeline_end (h x))) eqn:E.
    + now exists x.
    + apply (IH (c + duration (h x))); [exact Hlo | | exact Hp].
      apply Qnot_lt_le. intros Hlt.
      assert (Hin : span_contains h x position)
        by (unfold span_contains; rewrite Hs, He; split; assumption).
      apply span_contains_iff in Hin. congruence.
Qed.

Lemma laid_out_find_unique (h : store) (l : list ref) (position : Q) :
  forall c vf,
    laid_out h c l ->
    (forall x, In x l -> 0 <= duration (h x)) ->
    In vf l -> span_contains h vf position ->
    find_file_at_timeline_position h l position = Some vf.
Proof.
  induction l as [|x l IH]; intros c vf Hlo Hd Hvf Hc; [contradiction |].
  destruct Hlo as (Hs & He & Hlo).
  assert (Hd' : forall y, In y l -> 0 <= duration (h y))
    by (intros y Hy; apply Hd; now right).
  cbn [find_file_at_timeline_position].
  destruct (Qle_bool (timeline_start (h x)) position
            && Qlt_bool position (timeline_end (h x))) eqn:E.
  - apply span_contains_iff in E.
    destruct Hvf as [-> | Hvf]; [reflexivity |].
    destruct (laid_out_bounds h l _ Hlo Hd' vf Hvf) as (Hlow & _).
    destruct E as [_ E]. destruct Hc as [Hc _]. rewrite He in E. lra.
  - destruct Hvf as [<- | Hvf].
    + apply span_contains_iff in Hc. congruence.
    + now apply (IH (c + duration (h x))).
Qed.



(** On that timeline a position lies in the span of at most one file, and the
    lookup returns it: any file whose span contains the position is the
    result. *)
Theorem find_file_at_timeline_position_unique
  (h : store) (files sorted_files : list ref) (h' : store)
  (position : Q) (vf : ref) :
  NoDup files ->
  (forall x, In x files -> 0 <= duration (h x)) ->
  build_timeline_index h files = (sorted_files, h') ->
  In vf sorted_files ->
  span_contains h' vf position ->
  find_file_at_timeline_position h' sorted_files position = Some vf.
Proof.
  intros Hnd Hpos Hrun Hin Hc.
  destruct (build_timeline_index_laid_out h files sorted_files h' Hnd Hrun)
    as (Hperm & _ & Hlo & Hdur & _).
  apply (laid_out_find_unique h' sorted_files position 0);
    try assumption.
  intros x Hx. rewrite Hdur. apply Hpos.
  eapply Permutation_in; [apply Permutation_sym; exact Hperm | exact Hx].
Qed.

Lemma find_file_at_timeline_position_unique_witness :
  NoDup [0; 1; 2]%nat
  /\ span_contains timeline_store 2%nat 25
  /\ find_file_at_timeline_position timeline_store timeline_files 25
     = Some 2%nat.
Proof.
  assert (Hnd : NoDup [0; 1; 2]%nat).
  { repeat constructor; simpl; intuition discriminate. }
  assert (Hpos : forall vf, In vf [0; 1; 2]%nat ->
                   0 <= duration (three_files vf)).
  { intros vf [<- | [<- | [<- | []]]]; discriminate. }
  assert (Hin : In 2%nat timeline_files) by (right; right; now left).
  assert (Hc : span_contains timeline_store 2%nat 25)
    by (split; [discriminate | reflexivity]).
  split; [exact Hnd |]. split; [exact Hc |].
  exact (find_file_at_timeline_position_unique three_files [0; 1; 2]%nat
           timeline_files timeline_store 25 2%nat
           Hnd Hpos eq_refl Hin Hc).
Defined.

(** ** Interval Partitioner: signs and truncation *)

Lemma py_int_zero_between (x : Q) : py_int x = 0%Z <-> -(1) < x < 1.
Proof.
  destruct x as [n d]. unfold py_int, Qlt. cbn.
  rewrite Z.quot_small_iff by lia. lia.
Qed.



Example create_intervals_negative_output :
  create_intervals 30 5 (-15) = Ok [].
Proof. reflexivity. Qed.

Example create_intervals_small_negative_output :
  create_intervals 30 5 (-3) = Raise ZeroDivisionError.
Proof. reflexivity. Qed.

(** ** Interval-to-File Mapper: order of the files *)

Lemma subsequence_filter {A : Type} (f : A -> bool) (l : list A) :
  subsequence (filter f l) l.
Proof.
  induction l as [|x l IH]; cbn [filter]; [constructor |].
  destruct (f x); now constructor.
Qed.

(** The mapper keeps the number and order of the intervals, and the files it
    appends to an interval come in the order of the file list, each as often
    as it is listed there. *)
Theorem map_videos_to_intervals_file_order
  (h : store) (files : list ref) (intervals : list Interval) :
  length (map_videos_to_intervals h files intervals) = length intervals
  /\ map interval_id (map_videos_to_intervals h files intervals)
     = map interval_id intervals
  /\ forall i itv,
       nth_error intervals i = Some itv ->
       exists appended,
         option_map video_files
           (nth_error (map_videos_to_intervals h files intervals) i)
         = Some (video_files itv ++ appended)
         /\ subsequence appended files
         /\ (NoDup files -> NoDup appended).
Proof.
  unfold map_videos_to_intervals.
  split; [apply length_map |]. split.
  - rewrite map_map. apply map_ext. intros itv.
    now rewrite map_videos_to_interval_eq.
  - intros i itv Hi. exists (filter (intersects h itv) files).
    rewrite nth_error_map, Hi. cbn [option_map].
    rewrite map_videos_to_interval_eq. cbn [video_files].
    split; [reflexivity |]. split; [apply subsequence_filter |].
    apply NoDup_filter.
Qed.

(** ** Partition of a built timeline *)


Lemma partition_bounds (total : Q) (count k : Z) :
  0 < total -> (0 <= k < count)%Z ->
  0 <= inject_Z k * (total / inject_Z count)
  /\ inject_Z k * (total / inject_Z count)
     < inject_Z (k + 1) * (total / inject_Z count)
  /\ inject_Z (k + 1) * (total / inject_Z count) <= total.
Proof.
  intros Htotal Hk.
  assert (HcQ : 0 < inject_Z count) by (unfold Qlt, inject_Z; simpl; lia).
  assert (HkQ : 0 <= inject_Z k) by (unfold Qle, inject_Z; simpl; lia).
  assert (Hk1 : inject_Z (k + 1) <= inject_Z count)
    by (unfold Qle, inject_Z; simpl; lia).
  assert (Hinj : inject_Z (k + 1) == inject_Z k + 1)
    by (rewrite inject_Z_plus; reflexivity).
  assert (Hsid : 0 < total / inject_Z count)
    by (apply Qlt_shift_div_l; [exact HcQ | lra]).
  assert (Hfull : inject_Z count * (total / inject_Z count) == total)
    by (field; lra).
  split; [apply Qmult_le_0_compat; lra |].
  split.
  - rewrite Hinj.
    assert ((inject_Z k + 1) * (total / inject_Z count)
            == inject_Z k * (total / inject_Z count)
               + total / inject_Z count) as -> by ring.
    lra.
  - rewrite <- Hfull at 2.
    apply Qmult_le_compat_r; [exact Hk1 | lra].
Qed.







(** ** Sampling Planner: which draw is taken *)

(** The attempt loop takes the first draw that is not rejected: all draws
    before the one that gives the sample were rejected, and when the loop ends
    without a sample every one of its draws was. *)
Theorem sample_attempts_first_accepted
  (h : store) (files : list ref) (d : Q) (rnd : rng) (itv : Interval)
  (attempts n : nat) :
  match sample_attempts h files d rnd itv attempts n with
  | (Some s, n') =>
      exists k,
        (n <= k < n + attempts)%nat /\ n' = S k
        /\ accepted_at h files d rnd itv k s
        /\ forall j, (n <= j < k)%nat -> draw_rejected h files d rnd itv j
  | (None, n') =>
      n' = (n + attempts)%nat
      /\ forall j, (n <= j < n + attempts)%nat ->
           draw_rejected h files d rnd itv j
  end.
Proof.
  revert n. induction attempts as [|attempts IH]; intros n;
    cbn [sample_attempts].
  - split; [lia |]. intros j Hj. lia.
  - assert (Hrec :
      draw_rejected h files d rnd itv n ->
      match sample_attempts h files d rnd itv attempts (S n) with
      | (Some s, n') =>
          exists k,
            (n <= k < n + S attempts)%nat /\ n' = S k
            /\ accepted_at h files d rnd itv k s
            /\ forall j, (n <= j < k)%nat ->
                 draw_rejected h files d rnd itv j
      | (None, n') =>
          n' = (n + S attempts)%nat
          /\ forall j, (n <= j < n + S attempts)%nat ->
               draw_rejected h files d rnd itv j
      end).
    { intros Hrej. specialize (IH (S n)).
      destruct (sample_attempts h files d rnd itv attempts (S n))
        as [[s|] n'].
      - destruct IH as (k & Hk & Hn' & Hacc & Hbefore).
        exists k. split; [lia |]. split; [exact Hn' |].
        split; [exact Hacc |].
        intros j Hj. destruct (Nat.eq_dec j n) as [-> | Hne];
          [exact Hrej | apply Hbefore; lia].
      - destruct IH as (Hn' & Hall). split; [lia |].
        intros j Hj. destruct (Nat.eq_dec j n) as [-> | Hne];
          [exact Hrej | apply Hall; lia]. }
    destruct (find_file_at_timeline_position h files
                (uniform rnd n (start_time itv) (clamped_max_start itv d)))
      as [src|] eqn:Efind.
    + destruct (Qle_bool
                  (uniform rnd n (start_time itv) (clamped_max_start itv d)
                   + d)
                  (timeline_end (h src))) eqn:Eend.
      * exists n. split; [lia |]. split; [reflexivity |].
        split; [| intros j Hj; lia].
        unfold accepted_at. cbn [source_file].
        split; [exact Efind |].
        split; [now apply Qle_bool_iff | reflexivity].
      * apply Hrec. unfold draw_rejected. cbn zeta. rewrite Efind.
        apply Qnot_le_lt. intros Hle. apply Qle_bool_iff in Hle. congruence.
    + apply Hrec. unfold draw_rejected. cbn zeta. now rewrite Efind.
Qed.

(** ** Sampling Planner: the window and the interval *)






(** ** Sampling Planner: files shorter than the sample *)





(** ** Sampling Planner: every interval is accounted for *)

Lemma run_reports
  (h : store) (files : list ref) (d : Q) (rnd : rng)
  (intervals : list Interval) :
  forall st : plan_state,
    exists new_samples new_lines,
      samples (fold_left (plan_interval h files d rnd) intervals st)
      = samples st ++ new_samples
      /\ stdout (fold_left (plan_interval h files d rnd) intervals st)
         = stdout st ++ new_lines
      /\ subsequence new_lines (map skip_report intervals)
      /\ forall itv, In itv intervals ->
           (exists s, In s new_samples
                      /\ sample_interval_id s = interval_id itv)
           \/ In (skip_report itv) new_lines.
Proof.
  induction intervals as [|itv intervals IH]; intros st; cbn [fold_left].
  - exists [], []. rewrite !app_nil_r.
    split; [reflexivity |]. split; [reflexivity |].
    split; [constructor | intros itv []].
  - destruct (IH (plan_interval h files d rnd st itv))
      as (ns & nl & Hs & Hl & Hsub & Hall).
    destruct (plan_interval_cases h files d rnd st itv)
      as [[Hvf Hst] | [(Hvf & s & k & _ & Hacc & Hst) | [Hvf Hst]]];
      rewrite Hst in Hs, Hl |- *; cbn [samples stdout] in Hs, Hl.
    + exists ns, (skip_report itv :: nl).
      split; [exact Hs |].
      split.
      { rewrite Hl, <- app_assoc. unfold skip_report. now rewrite Hvf. }
      split; [cbn [map]; now constructor |].
      intros itv' [<- | Hin]; [right; now left |].
      destruct (Hall itv' Hin) as [Hsmp | Hrep];
        [now left | right; now right].
    + exists (s :: ns), nl.
      split; [now rewrite Hs, <- app_assoc |].
      split; [exact Hl |].
      split; [cbn [map]; now constructor |].
      intros itv' [<- | Hin].
      * left. exists s. split; [now left |].
        now apply (accepted_at_fields _ _ _ _ _ _ _ Hacc).
      * destruct (Hall itv' Hin) as [(s' & Hs' & Hid) | Hrep];
          [left; exists s'; split; [now right | exact Hid] | now right].
    + exists ns, (skip_report itv :: nl).
      split; [exact Hs |].
      split.
      { rewrite Hl, <- app_assoc. unfold skip_report.
        destruct (video_files itv); [contradiction | reflexivity]. }
      split; [cbn [map]; now constructor |].
      intros itv' [<- | Hin]; [right; now left |].
      destruct (Hall itv' Hin) as [Hsmp | Hrep];
        [now left | right; now right].
Qed.

(** Every interval given to the planner either has a sample with its id in
    the plan or its own warning line in the output, and the output holds
    nothing but such lines, in the order of the intervals. *)
Theorem run_sampling_plan_accounts
  (h : store) (intervals : list Interval) (files : list ref) (d : Q)
  (rnd : rng) :
  subsequence (stdout (run_sampling_plan h intervals files d rnd))
              (map skip_report intervals)
  /\ forall itv, In itv intervals ->
       (exists s,
          In s (create_sampling_plan h intervals files d rnd)
          /\ sample_interval_id s = interval_id itv)
       \/ In (skip_report itv)
             (stdout (run_sampling_plan h intervals files d rnd)).
Proof.
  unfold create_sampling_plan, run_sampling_plan.
  destruct (run_reports h files d rnd intervals initial_plan_state)
    as (ns & nl & -> & -> & Hsub & Hall).
  cbn [samples stdout initial_plan_state app]. now split.
Qed.

(** ** The planning stages of [main] *)

Lemma create_intervals_cases (total iv out : Q) :
  ((iv == 0 \/ -(1) < out / iv < 1)
   /\ create_intervals total iv out = Raise ZeroDivisionError)
  \/ (~ iv == 0 /\ ~ -(1) < out / iv < 1
      /\ exists intervals, create_intervals total iv out = Ok intervals).
Proof.
  destruct (Qeq_dec iv 0) as [Hiv | Hiv].
  { left. split; [now left |]. unfold create_intervals.
    now rewrite (py_div_zero out iv Hiv). }
  destruct (Z.eq_dec (py_int (out / iv)) 0) as [Hn | Hn].
  - left. split; [right; now apply py_int_zero_between |].
    unfold create_intervals. rewrite (py_div_ok out iv Hiv). cbn [bind].
    now rewrite Hn.
  - right. split; [exact Hiv |].
    split; [now rewrite <- py_int_zero_between |].
    eexists. now apply create_intervals_ok.
Qed.

(** How the planning part of [main] ends.  It returns 1 exactly when no file
    was discovered, whatever the durations asked for; with files it stops on
    an uncaught [ZeroDivisionError] exactly when the interval duration is 0 or
    the output duration is, in absolute value, less than the interval
    duration; in all other cases it reaches a plan. *)
Theorem main_plan_outcome
  (h : store) (video_files : list ref) (iv out : Q) (rnd : rng) :
  (forall code,
     main_plan h video_files iv out rnd = Exit code
     <-> video_files = [] /\ code = 1%Z)
  /\ (forall e,
        main_plan h video_files iv out rnd = Uncaught e
        <-> video_files <> [] /\ e = ZeroDivisionError
            /\ (iv == 0 \/ -(1) < out / iv < 1))
  /\ ((exists files h' intervals st fewer,
         main_plan h video_files iv out rnd
         = Planned files h' intervals st fewer)
      <-> video_files <> [] /\ ~ iv == 0 /\ ~ -(1) < out / iv < 1).
Proof.
  unfold main_plan.
  destruct video_files as [|vf rest].
  - split; [| split].
    + intros code. split; [intros [= <-]; now split | intros [_ ->]].
      reflexivity.
    + intros e. split; [discriminate | intros [Hne _]; now contradiction Hne].
    + split; [intros (? & ? & ? & ? & ? & Hp); discriminate Hp |].
      intros [Hne _]. now contradiction Hne.
  - destruct (build_timeline_index h (vf :: rest)) as [files h'].
    destruct (create_intervals_cases (sum_durations h (vf :: rest)) iv out)
      as [[Hbad ->] | (Hiv & Hq & intervals & ->)].
    + split; [| split].
      * intros code. split; [discriminate | intros [Hnil _]; discriminate].
      * intros e. split.
        -- intros [= <-]. split; [discriminate | now split].
        -- now intros (_ & -> & _).
      * split; [intros (? & ? & ? & ? & ? & Hp); discriminate Hp |].
        intros (_ & Hiv & Hq). destruct Hbad; contradiction.
    + split; [| split].
      * intros code. split; [discriminate | intros [Hnil _]; discriminate].
      * intros e. split; [discriminate |].
        intros (_ & _ & [Hz | Hz]); contradiction.
      * split; [intros _; split; [discriminate | now split] |].
        intros _. now repeat eexists.
Qed.

Lemma laid_out_span (h : store) (l : list ref) :
  forall c vf,
    laid_out h c l -> In vf l ->
    timeline_end (h vf) == timeline_start (h vf) + duration (h vf).
Proof.
  induction l as [|x l IH]; intros c vf Hlo Hvf; [contradiction |].
  destruct Hlo as (Hs & He & Hlo).
  destruct Hvf as [<- | Hvf].
  - rewrite He, Hs. reflexivity.
  - exact (IH _ vf Hlo Hvf).
Qed.

Lemma laid_out_interval_has_files
  (h : store) (l : list ref) (total : Q) (count k : Z) :
  laid_out h 0 l -> cursor_after h 0 l == total ->
  0 < total -> (0 <= k < count)%Z ->
  video_files
    (map_videos_to_interval h l
       (mkInterval k (inject_Z k * (total / inject_Z count))
          (inject_Z (k + 1) * (total / inject_Z count)) []))
  <> [].
Proof.
  intros Hlo Hsum Htotal Hk.
  destruct (partition_bounds _ _ k Htotal Hk) as (H0 & Hlt & Hle).
  rewrite map_videos_to_interval_eq.
  cbn [video_files app interval_id start_time end_time].
  set (a := inject_Z k * (total / inject_Z count)) in *.
  set (b := inject_Z (k + 1) * (total / inject_Z count)) in *.
  destruct (laid_out_find_some h l a 0 Hlo H0) as (vf & Hfind).
  { rewrite Hsum. lra. }
  apply find_file_at_timeline_position_some in Hfind as (Hvf & Hs & He).
  assert (Hint : intersects h (mkInterval k a b []) vf = true).
  { apply intersects_iff. cbn [start_time end_time]. split; lra. }
  intros Hnil.
  assert (Hf : In vf (filter (intersects h (mkInterval k a b [])) l))
    by (apply filter_In; now split).
  rewrite Hnil in Hf. exact Hf.
Qed.

Lemma range_sorted (n : Z) : StronglySorted Z.lt (range n).
Proof.
  unfold range. generalize (Z.to_nat n) as m. generalize 0%nat as a.
  intros a m. revert a.
  induction m as [|m IH]; intros a; cbn [seq map]; constructor.
  - apply IH.
  - apply Forall_forall. intros z Hz.
    apply in_map_iff in Hz as (i & <- & Hi). apply in_seq in Hi. lia.
Qed.

Lemma subsequence_Forall {A : Type} (P : A -> Prop) (sub l : list A) :
  subsequence sub l -> Forall P l -> Forall P sub.
Proof.
  induction 1 as [| x sub l _ IH | x sub l _ IH]; intros Hall.
  - constructor.
  - apply IH. now inversion Hall.
  - inversion Hall; subst. constructor; [assumption | now apply IH].
Qed.
